(** * LIEF::ELF::Relocation — a shallow embedding of src/ELF/Relocation.cpp

    The development follows the translation unit top to bottom: the
    fixed-width integers and the exceptions it uses, the four raw ELF
    relocation records, the [Relocation] entity with its constructors,
    accessors and mutators, the architecture dispatch of [size], the
    visitor-based hash and equality, and the stream printer. *)

From Stdlib Require Import ZArith String Ascii DecimalString HexadecimalString.
From stdpp Require Import base tactics decidable option list gmap strings.

Local Open Scope Z_scope.

(** ** Fixed-width integers

    Machine integers are values of [Z]; a conversion to a narrower
    unsigned type is written out as a reduction modulo the type's width. *)

Definition is_uint32 (z : Z) : Prop := 0 ≤ z < 2 ^ 32.
Definition is_uint64 (z : Z) : Prop := 0 ≤ z < 2 ^ 64.
Definition is_int32 (z : Z) : Prop := - 2 ^ 31 ≤ z < 2 ^ 31.
Definition is_int64 (z : Z) : Prop := - 2 ^ 63 ≤ z < 2 ^ 63.

(** [static_cast<uint32_t>(z)] *)
Definition to_uint32 (z : Z) : Z := z mod 2 ^ 32.

(** ** Exceptions (LIEF/exception.hpp) and the error monad

    The three exception classes this file throws or catches.  A call that
    may throw returns a [result]: [inl e] is the exception in flight. *)

Inductive exception : Type :=
  | not_found (what : string)
  | not_implemented (what : string)
  | not_supported (what : string).

Definition result (A : Type) : Type := (exception + A)%type.

Definition Ok {A : Type} (x : A) : result A := inr x.
Definition throw {A : Type} (e : exception) : result A := inl e.

#[export] Instance result_ret : MRet result := λ A x, Ok x.
#[export] Instance result_bind : MBind result := λ A B f m,
  match m with
  | inl e => inl e
  | inr x => f x
  end.

#[export] Instance exception_eq_dec : EqDecision exception.
Proof. solve_decision. Defined.

(** ** Target architectures *)

(** Modelled from the spec: the declaration of [enum ARCH] is not part of
    this translation unit.  The five enumerators the file names are kept;
    [EM_OTHER] stands for every remaining enumerator of the closed
    enumeration, told apart by its [e_machine] code. *)
Inductive ARCH : Type :=
  | EM_NONE
  | EM_386
  | EM_ARM
  | EM_X86_64
  | EM_AARCH64
  | EM_OTHER (e_machine : positive).

#[export] Instance ARCH_eq_dec : EqDecision ARCH.
Proof. solve_decision. Defined.

(** ** The four raw relocation records

    The struct declarations are not part of this translation unit; the
    fields are those the constructors read.  [wf] states the range each
    field has by its C type. *)

Module Elf32_Rel.
(** Modelled from the spec: the 32-bit layout with an implicit addend, a
    32-bit offset and a 32-bit info field. *)
Record t : Type := { r_offset : Z; r_info : Z }.
Definition wf (h : t) : Prop := is_uint32 (r_offset h) ∧ is_uint32 (r_info h).
End Elf32_Rel.

Module Elf32_Rela.
(** Modelled from the spec: the 32-bit layout with an explicit addend, a
    32-bit offset, a 32-bit info field and a signed 32-bit addend. *)
Record t : Type := { r_offset : Z; r_info : Z; r_addend : Z }.
Definition wf (h : t) : Prop :=
  is_uint32 (r_offset h) ∧ is_uint32 (r_info h) ∧ is_int32 (r_addend h).
End Elf32_Rela.

Module Elf64_Rel.
(** Modelled from the spec: the 64-bit layout with an implicit addend, a
    64-bit offset and a 64-bit info field. *)
Record t : Type := { r_offset : Z; r_info : Z }.
Definition wf (h : t) : Prop := is_uint64 (r_offset h) ∧ is_uint64 (r_info h).
End Elf64_Rel.

Module Elf64_Rela.
(** Modelled from the spec: the 64-bit layout with an explicit addend, a
    64-bit offset, a 64-bit info field and a signed 64-bit addend. *)
Record t : Type := { r_offset : Z; r_info : Z; r_addend : Z }.
Definition wf (h : t) : Prop :=
  is_uint64 (r_offset h) ∧ is_uint64 (r_info h) ∧ is_int64 (r_addend h).
End Elf64_Rela.

(** ** The entity *)

Section Entity.
(** The symbol class lives in another translation unit; the entity only
    holds a nullable pointer to one.  [None] is [nullptr]. *)
Context {Symbol : Type}.

Record Relocation : Type := {
  address_ : Z;               (* uint64_t *)
  type_ : Z;                  (* uint32_t *)
  addend_ : Z;                (* int64_t  *)
  isRela_ : bool;
  symbol_ : option Symbol;    (* Symbol*  *)
  architecture_ : ARCH
}.

(** Every field within the range of its C++ type. *)
Definition Relocation_wf (r : Relocation) : Prop :=
  is_uint64 (address_ r) ∧ is_uint32 (type_ r) ∧ is_int64 (addend_ r).

(** *** Constructors *)

(** [Relocation::Relocation(void)] *)
Definition Relocation_default : Relocation :=
  {| address_ := 0; type_ := 0; addend_ := 0; isRela_ := false;
     symbol_ := None; architecture_ := EM_NONE |}.

(** [Relocation::Relocation(const Relocation& other)] *)
Definition Relocation_copy (other : Relocation) : Relocation :=
  {| address_ := address_ other;
     type_ := type_ other;
     addend_ := addend_ other;
     isRela_ := isRela_ other;
     symbol_ := None;
     architecture_ := architecture_ other |}.

(** [Relocation::Relocation(const Elf32_Rel* header)] *)
Definition Relocation_Elf32_Rel (header : Elf32_Rel.t) : Relocation :=
  {| address_ := Elf32_Rel.r_offset header;
     type_ := to_uint32 (Z.land (Elf32_Rel.r_info header) 0xff);
     addend_ := 0;
     isRela_ := false;
     symbol_ := None;
     architecture_ := EM_NONE |}.

(** [Relocation::Relocation(const Elf32_Rela* header)] *)
Definition Relocation_Elf32_Rela (header : Elf32_Rela.t) : Relocation :=
  {| address_ := Elf32_Rela.r_offset header;
     type_ := to_uint32 (Z.land (Elf32_Rela.r_info header) 0xff);
     addend_ := Elf32_Rela.r_addend header;
     isRela_ := true;
     symbol_ := None;
     architecture_ := EM_NONE |}.

(** [Relocation::Relocation(const Elf64_Rel* header)] *)
Definition Relocation_Elf64_Rel (header : Elf64_Rel.t) : Relocation :=
  {| address_ := Elf64_Rel.r_offset header;
     type_ := to_uint32 (Z.land (Elf64_Rel.r_info header) 0xffffffff);
     addend_ := 0;
     isRela_ := false;
     symbol_ := None;
     architecture_ := EM_NONE |}.

(** [Relocation::Relocation(const Elf64_Rela* header)] *)
Definition Relocation_Elf64_Rela (header : Elf64_Rela.t) : Relocation :=
  {| address_ := Elf64_Rela.r_offset header;
     type_ := to_uint32 (Z.land (Elf64_Rela.r_info header) 0xffffffff);
     addend_ := Elf64_Rela.r_addend header;
     isRela_ := true;
     symbol_ := None;
     architecture_ := EM_NONE |}.

(** [Relocation::Relocation(uint64_t, uint32_t, int64_t, bool)] *)
Definition Relocation_values
    (address : Z) (type : Z) (addend : Z) (isRela : bool) : Relocation :=
  {| address_ := address;
     type_ := type;
     addend_ := addend;
     isRela_ := isRela;
     symbol_ := None;
     architecture_ := EM_NONE |}.

(** [void Relocation::swap(Relocation& other)]: both objects are
    updated, so both come back, [this] first. *)
Definition swap (this other : Relocation) : Relocation * Relocation :=
  ({| address_ := address_ other;
      type_ := type_ other;
      addend_ := addend_ other;
      isRela_ := isRela_ other;
      symbol_ := symbol_ other;
      architecture_ := architecture_ other |},
   {| address_ := address_ this;
      type_ := type_ this;
      addend_ := addend_ this;
      isRela_ := isRela_ this;
      symbol_ := symbol_ this;
      architecture_ := architecture_ this |}).

(** [Relocation& Relocation::operator=(Relocation other)]: [other] is the
    by-value parameter itself, which the body swaps with [this].  The
    caller initialises it: [a = b] with an object [b] calls
    [operator_assign a (Relocation_copy b)], while an argument built in
    place (a returned temporary) is the parameter as it stands. *)
Definition operator_assign (this other : Relocation) : Relocation :=
  fst (swap this other).

(** *** Accessors *)

Definition address (this : Relocation) : Z := address_ this.
Definition addend (this : Relocation) : Z := addend_ this.
Definition type (this : Relocation) : Z := type_ this.

(** [const Symbol& Relocation::symbol(void) const] *)
Definition symbol (this : Relocation) : result Symbol :=
  match symbol_ this with
  | Some s => Ok s
  | None => throw (not_found "No symbol associated with this relocation")
  end.

Definition is_rela (this : Relocation) : bool := isRela_ this.
Definition is_rel (this : Relocation) : bool := negb (isRela_ this).
Definition architecture (this : Relocation) : ARCH := architecture_ this.

(** [this->symbol_ != nullptr] *)
Definition has_symbol (this : Relocation) : bool :=
  match symbol_ this with
  | Some _ => true
  | None => false
  end.

(** *** Mutators *)

(** [void Relocation::address(uint64_t address)] *)
Definition set_address (this : Relocation) (address : Z) : Relocation :=
  {| address_ := address;
     type_ := type_ this;
     addend_ := addend_ this;
     isRela_ := isRela_ this;
     symbol_ := symbol_ this;
     architecture_ := architecture_ this |}.

(** [void Relocation::addend(int64_t addend)] *)
Definition set_addend (this : Relocation) (addend : Z) : Relocation :=
  {| address_ := address_ this;
     type_ := type_ this;
     addend_ := addend;
     isRela_ := isRela_ this;
     symbol_ := symbol_ this;
     architecture_ := architecture_ this |}.

(** [void Relocation::type(uint32_t type)] *)
Definition set_type (this : Relocation) (type : Z) : Relocation :=
  {| address_ := address_ this;
     type_ := type;
     addend_ := addend_ this;
     isRela_ := isRela_ this;
     symbol_ := symbol_ this;
     architecture_ := architecture_ this |}.

(** Modelled from the spec: the binding operation of the symbol-table
    collaborator is not in this translation unit (it writes the private
    member directly).  Binding, and rebinding, overwrites the reference. *)
Definition bind_symbol (this : Relocation) (s : Symbol) : Relocation :=
  {| address_ := address_ this;
     type_ := type_ this;
     addend_ := addend_ this;
     isRela_ := isRela_ this;
     symbol_ := Some s;
     architecture_ := architecture_ this |}.

(** Modelled from the spec: the file reader sets the architecture once it
    is known; the assignment is not in this translation unit either. *)
Definition set_architecture (this : Relocation) (a : ARCH) : Relocation :=
  {| address_ := address_ this;
     type_ := type_ this;
     addend_ := addend_ this;
     isRela_ := isRela_ this;
     symbol_ := symbol_ this;
     architecture_ := a |}.
End Entity.

Arguments Relocation : clear implicits.

(** ** Architecture dispatch: [Relocation::size] *)

(** The lookup tables of LIEF/ELF/RelocationSizes.hpp, one per supported
    architecture, keyed by the relocation-type enumerator.  An enumerator
    is represented by its numeric code, so [static_cast<RELOC_x>(type)]
    is the identity.  The tables themselves are declared elsewhere and
    are taken as parameters. *)
Class RelocationSizes : Type := {
  relocation_x86_64_sizes : gmap Z Z;
  relocation_i386_sizes : gmap Z Z;
  relocation_ARM_sizes : gmap Z Z;
  relocation_AARCH64_sizes : gmap Z Z
}.

(** The [to_string] overloads of LIEF/ELF/EnumToString.hpp used here. *)
Class EnumToString : Type := {
  to_string_ARCH : ARCH → string;
  to_string_RELOC_x86_64 : Z → string;
  to_string_RELOC_i386 : Z → string;
  to_string_RELOC_ARM : Z → string;
  to_string_RELOC_AARCH64 : Z → string
}.

Section Size.
Context {Symbol : Type} `{RelocationSizes} `{EnumToString}.

(** [uint32_t Relocation::size(void) const]; [std::map::at] throws
    [std::out_of_range] exactly when the key is absent, which the
    [catch] turns into [not_implemented]. *)
Definition size (this : Relocation Symbol) : result Z :=
  match architecture this with
  | EM_X86_64 =>
      match relocation_x86_64_sizes !! type this with
      | Some n => Ok n
      | None =>
          throw (not_implemented
            (to_string_ARCH (architecture this) +:+ " - " +:+
             to_string_RELOC_x86_64 (type this)))
      end
  | EM_386 =>
      match relocation_i386_sizes !! type this with
      | Some n => Ok n
      | None =>
          throw (not_implemented
            (to_string_ARCH (architecture this) +:+ " - " +:+
             to_string_RELOC_i386 (type this)))
      end
  | EM_ARM =>
      match relocation_ARM_sizes !! type this with
      | Some n => Ok n
      | None =>
          throw (not_implemented
            (to_string_ARCH (architecture this) +:+ " - " +:+
             to_string_RELOC_ARM (type this)))
      end
  | EM_AARCH64 =>
      match relocation_AARCH64_sizes !! type this with
      | Some n => Ok n
      | None =>
          throw (not_implemented
            (to_string_ARCH (architecture this) +:+ " - " +:+
             to_string_RELOC_AARCH64 (type this)))
      end
  | _ => throw (not_implemented (to_string_ARCH (architecture this)))
  end.
End Size.

(** ** Visiting, hashing and equality *)

(** The [Visitor] interface as this file uses it: one [visit] overload per
    argument type passed in [accept], and the call operator on a symbol.
    A visitor is a state that each call updates. *)
Class Visitor (Symbol V : Type) : Type := {
  visit_uint64 : Z → V → V;
  visit_int64 : Z → V → V;
  visit_uint32 : Z → V → V;
  visit_ARCH : ARCH → V → V;
  visit_Symbol : Symbol → V → V
}.

(** The [Hash] visitor of LIEF/visitors/Hash.hpp: a visitor with a fresh
    state and a [size_t] digest.  How it combines what it visits is
    defined elsewhere and is taken as a parameter. *)
Class Hash (Symbol V : Type) : Type := {
  Hash_Visitor :: Visitor Symbol V;
  Hash_init : V;
  Hash_value : V → Z
}.

Section Identity.
Context {Symbol V : Type}.

(** [void Relocation::accept(Visitor& visitor) const] *)
Definition accept `{Visitor Symbol V}
    (this : Relocation Symbol) (visitor : V) : result V :=
  let visitor := visit_uint64 (address this) visitor in
  let visitor := visit_int64 (addend this) visitor in
  let visitor := visit_uint32 (type this) visitor in
  let visitor := visit_ARCH (architecture this) visitor in
  if has_symbol this then
    s ← symbol this;
    Ok (visit_Symbol s visitor)
  else Ok visitor.

Context `{Hash Symbol V}.

(** Modelled from the spec: [Hash::hash(obj)] is declared in
    LIEF/visitors/Hash.hpp; it lets a fresh hasher visit the object and
    returns the digest. *)
Definition Hash_hash (obj : Relocation Symbol) : result Z :=
  hasher ← accept obj Hash_init;
  Ok (Hash_value hasher).

(** [bool Relocation::operator==(const Relocation& rhs) const] *)
Definition operator_eq (this rhs : Relocation Symbol) : result bool :=
  hash_lhs ← Hash_hash this;
  hash_rhs ← Hash_hash rhs;
  Ok (hash_lhs =? hash_rhs).

(** [bool Relocation::operator!=(const Relocation& rhs) const] *)
Definition operator_ne (this rhs : Relocation Symbol) : result bool :=
  eq ← operator_eq this rhs;
  Ok (negb eq).
End Identity.

(** ** Printing *)

(** The formatting state of a [std::ostream] that the printer reads or
    writes: the characters written so far, the numeric base, the
    adjustment, the pending field width and the fill character.  The
    other flags ([showbase], [uppercase], ...) are taken at their
    defaults. *)
Inductive fmt_base : Type := base_dec | base_hex.
Inductive fmt_adjust : Type := adjust_left | adjust_right | adjust_internal.

Record ostream : Type := {
  os_buffer : string;
  os_base : fmt_base;
  os_adjust : fmt_adjust;
  os_width : nat;
  os_fill : ascii
}.

(** [os << std::hex], [os << std::left], [os << std::setw(n)] *)
Definition put_hex (os : ostream) : ostream :=
  {| os_buffer := os_buffer os; os_base := base_hex;
     os_adjust := os_adjust os; os_width := os_width os;
     os_fill := os_fill os |}.

Definition put_left (os : ostream) : ostream :=
  {| os_buffer := os_buffer os; os_base := os_base os;
     os_adjust := adjust_left; os_width := os_width os;
     os_fill := os_fill os |}.

Definition put_setw (n : nat) (os : ostream) : ostream :=
  {| os_buffer := os_buffer os; os_base := os_base os;
     os_adjust := os_adjust os; os_width := n;
     os_fill := os_fill os |}.

(** The same stream after [os.setf(b, basefield)], [os.setf(a,
    adjustfield)] and [os.width(w)]: nothing else of it changes. *)
Definition with_format (b : fmt_base) (a : fmt_adjust) (w : nat)
    (os : ostream) : ostream :=
  {| os_buffer := os_buffer os; os_base := b;
     os_adjust := a; os_width := w;
     os_fill := os_fill os |}.

Fixpoint fill_chars (n : nat) (c : ascii) : string :=
  match n with
  | O => EmptyString
  | S n' => String c (fill_chars n' c)
  end.

(** A field is padded with the fill character up to the pending width,
    on the right when the stream is left-adjusted. *)
Definition pad_field (os : ostream) (s : string) : string :=
  let padding := fill_chars (os_width os - String.length s) (os_fill os) in
  match os_adjust os with
  | adjust_left => s +:+ padding
  | _ => padding +:+ s
  end.

(** [os << s] for a [std::string]; the width is consumed. *)
Definition put_string (s : string) (os : ostream) : ostream :=
  {| os_buffer := os_buffer os +:+ pad_field os s;
     os_base := os_base os; os_adjust := os_adjust os;
     os_width := O; os_fill := os_fill os |}.

(** [std::to_string(n)] for an unsigned integer. *)
Definition std_to_string (n : Z) : string :=
  DecimalString.NilZero.string_of_uint (N.to_uint (Z.to_N n)).

Definition hex_digits (n : Z) : string :=
  HexadecimalString.NilZero.string_of_uint (N.to_hex_uint (Z.to_N n)).

(** [os << n] for a [uint64_t]. *)
Definition put_uint64 (n : Z) (os : ostream) : ostream :=
  put_string
    (match os_base os with
     | base_dec => std_to_string n
     | base_hex => hex_digits n
     end) os.

(** Modelled from the spec: the symbol class is declared in
    LIEF/ELF/Symbol.hpp.  Of it the printer needs the raw name and the
    demangled name; the latter fails with [not_supported], and with
    nothing else, for a symbol that does not support demangling. *)
Class SymbolOps (Symbol : Type) : Type := {
  Symbol_name : Symbol → string;
  Symbol_demangled_name : Symbol → result string;
  Symbol_demangled_name_throws : ∀ s e,
    Symbol_demangled_name s = inl e → ∃ what, e = not_supported what
}.

Section Print.
Context {Symbol : Type} `{SymbolOps Symbol} `{EnumToString}.

(** [std::ostream& operator<<(std::ostream& os, const Relocation& entry)] *)
Definition operator_shl
    (os : ostream) (entry : Relocation Symbol) : result ostream :=
  let symbol_name := ""%string in
  let os := put_hex os in
  let os := put_left os in
  symbol_name ←
    (if has_symbol entry then
       symbol ← symbol entry;
       match Symbol_demangled_name symbol with
       | inr demangled => Ok demangled
       | inl (not_supported _) => Ok (Symbol_name symbol)
       | inl e => throw e
       end
     else Ok symbol_name);
  let relocation_type :=
    match architecture entry with
    | EM_X86_64 => to_string_RELOC_x86_64 (type entry)
    | EM_386 => to_string_RELOC_i386 (type entry)
    | EM_ARM => to_string_RELOC_ARM (type entry)
    | EM_AARCH64 => to_string_RELOC_AARCH64 (type entry)
    | _ => std_to_string (type entry)
    end in
  let os := put_uint64 (address entry) (put_setw 10 os) in
  let os := put_string relocation_type (put_setw 10 os) in
  let os := put_string symbol_name (put_setw 10 os) in
  Ok os.
End Print.

(** ** Vocabulary of the specification *)

(** *** Decoding: the raw layouts seen as one family *)

Inductive raw_record : Type :=
  | Raw_Elf32_Rel (h : Elf32_Rel.t)
  | Raw_Elf32_Rela (h : Elf32_Rela.t)
  | Raw_Elf64_Rel (h : Elf64_Rel.t)
  | Raw_Elf64_Rela (h : Elf64_Rela.t).

Definition raw_wf (raw : raw_record) : Prop :=
  match raw with
  | Raw_Elf32_Rel h => Elf32_Rel.wf h
  | Raw_Elf32_Rela h => Elf32_Rela.wf h
  | Raw_Elf64_Rel h => Elf64_Rel.wf h
  | Raw_Elf64_Rela h => Elf64_Rela.wf h
  end.

Definition decode {Symbol : Type} (raw : raw_record) : Relocation Symbol :=
  match raw with
  | Raw_Elf32_Rel h => Relocation_Elf32_Rel h
  | Raw_Elf32_Rela h => Relocation_Elf32_Rela h
  | Raw_Elf64_Rel h => Relocation_Elf64_Rel h
  | Raw_Elf64_Rela h => Relocation_Elf64_Rela h
  end.

(** What a raw record carries, in the words of the layout table: its
    offset, its info field masked to the width of its word size, whether
    it has an addend field, and that field when it has one. *)
Definition raw_offset (raw : raw_record) : Z :=
  match raw with
  | Raw_Elf32_Rel h => Elf32_Rel.r_offset h
  | Raw_Elf32_Rela h => Elf32_Rela.r_offset h
  | Raw_Elf64_Rel h => Elf64_Rel.r_offset h
  | Raw_Elf64_Rela h => Elf64_Rela.r_offset h
  end.

Definition raw_type (raw : raw_record) : Z :=
  match raw with
  | Raw_Elf32_Rel h => Z.land (Elf32_Rel.r_info h) (Z.ones 8)
  | Raw_Elf32_Rela h => Z.land (Elf32_Rela.r_info h) (Z.ones 8)
  | Raw_Elf64_Rel h => Z.land (Elf64_Rel.r_info h) (Z.ones 32)
  | Raw_Elf64_Rela h => Z.land (Elf64_Rela.r_info h) (Z.ones 32)
  end.

Definition raw_addend (raw : raw_record) : option Z :=
  match raw with
  | Raw_Elf32_Rel _ | Raw_Elf64_Rel _ => None
  | Raw_Elf32_Rela h => Some (Elf32_Rela.r_addend h)
  | Raw_Elf64_Rela h => Some (Elf64_Rela.r_addend h)
  end.

Definition raw_has_addend (raw : raw_record) : bool :=
  match raw_addend raw with
  | Some _ => true
  | None => false
  end.

(** The raw record of the layout selected by [isRela] whose fields carry
    [address], [type] and, where the layout has the field, [addend]. *)
Definition carries (raw : raw_record)
    (address type addend : Z) (isRela : bool) : Prop :=
  raw_has_addend raw = isRela ∧
  raw_offset raw = address ∧
  raw_type raw = type ∧
  match raw_addend raw with
  | Some a => a = addend
  | None => True
  end.

(** Same results from every accessor that cannot fail. *)
Definition same_accessors {Symbol : Type} (a b : Relocation Symbol) : Prop :=
  address a = address b ∧
  type a = type b ∧
  addend a = addend b ∧
  is_rela a = is_rela b ∧
  is_rel a = is_rel b ∧
  has_symbol a = has_symbol b ∧
  architecture a = architecture b.

(** *** Dispatch: the supported set and each architecture's table *)

Definition supported_architectures : list ARCH :=
  [EM_X86_64; EM_386; EM_ARM; EM_AARCH64].

Definition size_table `{RelocationSizes} (a : ARCH) : option (gmap Z Z) :=
  match a with
  | EM_X86_64 => Some relocation_x86_64_sizes
  | EM_386 => Some relocation_i386_sizes
  | EM_ARM => Some relocation_ARM_sizes
  | EM_AARCH64 => Some relocation_AARCH64_sizes
  | _ => None
  end.

(** The name [to_string] gives a type code under a supported
    architecture's enumeration. *)
Definition type_name `{EnumToString} (a : ARCH) (t : Z) : option string :=
  match a with
  | EM_X86_64 => Some (to_string_RELOC_x86_64 t)
  | EM_386 => Some (to_string_RELOC_i386 t)
  | EM_ARM => Some (to_string_RELOC_ARM t)
  | EM_AARCH64 => Some (to_string_RELOC_AARCH64 t)
  | _ => None
  end.

(** *** Identity: what a visitor is shown, and in which order *)

Inductive Visited (Symbol : Type) : Type :=
  | VUint64 (n : Z)
  | VInt64 (n : Z)
  | VUint32 (n : Z)
  | VArch (a : ARCH)
  | VSymbol (s : Symbol).

Arguments VUint64 {Symbol} n.
Arguments VInt64 {Symbol} n.
Arguments VUint32 {Symbol} n.
Arguments VArch {Symbol} a.
Arguments VSymbol {Symbol} s.

(** Address, addend, type, architecture and, if bound, the symbol. *)
Definition visit_order {Symbol : Type}
    (r : Relocation Symbol) : list (Visited Symbol) :=
  [VUint64 (address_ r); VInt64 (addend_ r); VUint32 (type_ r);
   VArch (architecture_ r)] ++
  match symbol_ r with
  | Some s => [VSymbol s]
  | None => []
  end.

Definition replay_one {Symbol V : Type} `{Visitor Symbol V}
    (visitor : V) (x : Visited Symbol) : V :=
  match x with
  | VUint64 n => visit_uint64 n visitor
  | VInt64 n => visit_int64 n visitor
  | VUint32 n => visit_uint32 n visitor
  | VArch a => visit_ARCH a visitor
  | VSymbol s => visit_Symbol s visitor
  end.

Definition replay {Symbol V : Type} `{Visitor Symbol V}
    (xs : list (Visited Symbol)) (visitor : V) : V :=
  fold_left replay_one xs visitor.

(** The digest of a sequence of visits shown to a fresh hasher. *)
Definition digest {Symbol V : Type} `{Hash Symbol V}
    (xs : list (Visited Symbol)) : Z :=
  Hash_value (replay xs Hash_init).

(** A visitor that only records what it is shown. *)
Definition Recorder (Symbol : Type) : Visitor Symbol (list (Visited Symbol)) :=
  {| visit_uint64 n log := log ++ [VUint64 n];
     visit_int64 n log := log ++ [VInt64 n];
     visit_uint32 n log := log ++ [VUint32 n];
     visit_ARCH a log := log ++ [VArch a];
     visit_Symbol s log := log ++ [VSymbol s] |}.

(** The hasher does not collide on two sequences of visits: if they
    differ, so do their digests.  This speaks of the hasher alone, not of
    [accept] or of the comparison operators. *)
Definition Hash_separates {Symbol V : Type} `{Hash Symbol V}
    (xs ys : list (Visited Symbol)) : Prop :=
  xs ≠ ys → digest xs ≠ digest ys.

(** *** Symbol binding: entities obtained without the binding operation *)

Inductive bind_free {Symbol : Type} : Relocation Symbol → Prop :=
  | bf_default : bind_free Relocation_default
  | bf_copy other : bind_free (Relocation_copy other)
  | bf_decode raw : bind_free (decode raw)
  | bf_values a t ad f : bind_free (Relocation_values a t ad f)
  | bf_set_address r a : bind_free r → bind_free (set_address r a)
  | bf_set_addend r a : bind_free r → bind_free (set_addend r a)
  | bf_set_type r t : bind_free r → bind_free (set_type r t)
  | bf_set_architecture r a : bind_free r → bind_free (set_architecture r a)
  | bf_assign r other : bind_free other → bind_free (operator_assign r other)
  | bf_swap_this r other :
      bind_free r → bind_free other → bind_free (fst (swap r other))
  | bf_swap_other r other :
      bind_free r → bind_free other → bind_free (snd (swap r other)).

(** *** Identity: one hashed field changed on one of two entities *)

Inductive changed_one {Symbol : Type} :
    Relocation Symbol → Relocation Symbol → Prop :=
  | changed_address r x : x ≠ address r → changed_one r (set_address r x)
  | changed_addend r x : x ≠ addend r → changed_one r (set_addend r x)
  | changed_type r x : x ≠ type r → changed_one r (set_type r x)
  | changed_architecture r a :
      a ≠ architecture r → changed_one r (set_architecture r a)
  | changed_symbol r s : symbol_ r ≠ Some s → changed_one r (bind_symbol r s).

(** *** Printing: a field of the summary line *)

(** The text followed by fill characters up to the column width. *)
Definition left_justified (fill : ascii) (w : nat) (s : string) : string :=
  s +:+ fill_chars (w - String.length s) fill.

(** The text of the type column: the name of the code under a supported
    architecture, the decimal code otherwise. *)
Definition type_column {Symbol : Type} `{EnumToString}
    (entry : Relocation Symbol) : string :=
  match type_name (architecture entry) (type entry) with
  | Some name => name
  | None => std_to_string (type entry)
  end.

(** The text of the symbol column: empty without a symbol, else the
    demangled name when there is one and the raw name when not. *)
Definition symbol_column {Symbol : Type} `{SymbolOps Symbol}
    (entry : Relocation Symbol) : string :=
  match symbol_ entry with
  | None => ""
  | Some s =>
      match Symbol_demangled_name s with
      | inr demangled => demangled
      | inl _ => Symbol_name s
      end
  end.

(** The three columns of one entry, for a given fill character. *)
Definition summary_line {Symbol : Type} `{SymbolOps Symbol} `{EnumToString}
    (fill : ascii) (entry : Relocation Symbol) : string :=
  left_justified fill 10 (hex_digits (address entry)) +:+
  left_justified fill 10 (type_column entry) +:+
  left_justified fill 10 (symbol_column entry).

(** ** A concrete environment

    One instance of every parameter above, small enough to evaluate: it
    is where the statements below are run on actual entities. *)

Module Sample.
(** A symbol with a raw name and, when the platform can demangle it, a
    demangled one. *)
Record Sym : Type := { sym_name : string; sym_demangled : option string }.

Definition demangled_name (s : Sym) : result string :=
  match sym_demangled s with
  | Some d => Ok d
  | None => throw (not_supported "Can't demangle name")
  end.

Definition demangled_name_throws (s : Sym) (e : exception) :
    demangled_name s = inl e → ∃ what, e = not_supported what :=
  match sym_demangled s as o return
    match o with
    | Some d => Ok d
    | None => throw (not_supported "Can't demangle name")
    end = inl e → ∃ what, e = not_supported what
  with
  | Some d => λ Heq,
      match Heq in _ = y return
        match y with inl _ => ∃ what, e = not_supported what | inr _ => True end
      with eq_refl => I end
  | None => λ Heq,
      ex_intro _ "Can't demangle name"%string
        (eq_sym (f_equal (λ x, match x with inl e' => e' | inr _ => e end) Heq))
  end.

#[export] Instance ops : SymbolOps Sym :=
  {| Symbol_name := sym_name;
     Symbol_demangled_name := demangled_name;
     Symbol_demangled_name_throws := demangled_name_throws |}.

Definition main_symbol : Sym :=
  {| sym_name := "_Z4mainv"; sym_demangled := Some "main()"%string |}.
Definition raw_symbol : Sym :=
  {| sym_name := "memcpy"; sym_demangled := None |}.

#[export] Instance sizes : RelocationSizes :=
  {| relocation_x86_64_sizes := {[ 1 := 8; 2 := 8; 10 := 4 ]};
     relocation_i386_sizes := {[ 1 := 4; 2 := 4 ]};
     relocation_ARM_sizes := {[ 2 := 4 ]};
     relocation_AARCH64_sizes := {[ 257 := 8; 258 := 4 ]} |}.

Definition arch_name (a : ARCH) : string :=
  match a with
  | EM_NONE => "NONE"
  | EM_386 => "i386"
  | EM_ARM => "ARM"
  | EM_X86_64 => "x86_64"
  | EM_AARCH64 => "AARCH64"
  | EM_OTHER _ => "UNDEFINED"
  end.

Definition reloc_name (t : Z) : string :=
  if t =? 2 then "RELATIVE" else "UNDEFINED".

#[export] Instance names : EnumToString :=
  {| to_string_ARCH := arch_name;
     to_string_RELOC_x86_64 := reloc_name;
     to_string_RELOC_i386 := reloc_name;
     to_string_RELOC_ARM := reloc_name;
     to_string_RELOC_AARCH64 := reloc_name |}.

(** A 64-bit hasher in the hash-combine style. *)
Definition to_size_t (z : Z) : Z := z mod 2 ^ 64.

Definition combine (lhs rhs : Z) : Z :=
  Z.lxor lhs
    (to_size_t (rhs + 0x9e3779b9 + to_size_t (Z.shiftl lhs 6) + Z.shiftr lhs 2)).

Definition arch_code (a : ARCH) : Z :=
  match a with
  | EM_NONE => 0
  | EM_386 => 3
  | EM_ARM => 40
  | EM_X86_64 => 62
  | EM_AARCH64 => 183
  | EM_OTHER c => Z.pos c
  end.

Fixpoint string_code (s : string) (acc : Z) : Z :=
  match s with
  | EmptyString => acc
  | String c s' => string_code s' (combine acc (Z.of_N (N_of_ascii c)))
  end.

Definition visitor : Visitor Sym Z :=
  {| visit_uint64 n h := combine h (to_size_t n);
     visit_int64 n h := combine h (to_size_t n);
     visit_uint32 n h := combine h (to_size_t n);
     visit_ARCH a h := combine h (arch_code a);
     visit_Symbol s h := combine h (string_code (sym_name s) 0) |}.

#[export] Instance hasher : Hash Sym Z :=
  {| Hash_Visitor := visitor; Hash_init := 0; Hash_value := id |}.

(** The record of the specification's example: offset 0x1000, info
    0x0000000100000002, addend -8. *)
Definition example_rela : Elf64_Rela.t :=
  {| Elf64_Rela.r_offset := 0x1000;
     Elf64_Rela.r_info := 0x0000000100000002;
     Elf64_Rela.r_addend := -8 |}.

Definition example_entity : Relocation Sym :=
  set_architecture (Relocation_Elf64_Rela example_rela) EM_X86_64.

(** An implicit-addend record at the same offset and type, and two
    entities built from explicit values that differ in the has-addend
    flag alone. *)
Definition example_rel : Elf64_Rel.t :=
  {| Elf64_Rel.r_offset := 0x1000; Elf64_Rel.r_info := 2 |}.

Definition built_rela : Relocation Sym := Relocation_values 0x1000 2 (-8) true.
Definition built_rel : Relocation Sym := Relocation_values 0x1000 2 (-8) false.

Definition cout : ostream :=
  {| os_buffer := ""; os_base := base_dec; os_adjust := adjust_right;
     os_width := O; os_fill := " "%char |}.
End Sample.

(** * Properties *)

(** ** Integer facts *)

Lemma land_ones_range (z n : Z) : 0 ≤ n → 0 ≤ Z.land z (Z.ones n) < 2 ^ n.
Proof.
  intros Hn. rewrite Z.land_ones by done.
  apply Z.mod_pos_bound. by apply Z.pow_pos_nonneg.
Qed.

Lemma to_uint32_id (z : Z) : is_uint32 z → to_uint32 z = z.
Proof. intros Hz. unfold to_uint32. by apply Z.mod_small. Qed.

Lemma to_uint32_range (z : Z) : is_uint32 (to_uint32 z).
Proof. unfold is_uint32, to_uint32. by apply Z.mod_pos_bound. Qed.

(** Masking with [0xff] leaves a value the 32-bit cast does not change. *)
Lemma to_uint32_land_8 (z : Z) :
  to_uint32 (Z.land z 0xff) = Z.land z (Z.ones 8).
Proof.
  change 0xff with (Z.ones 8). apply to_uint32_id.
  pose proof (land_ones_range z 8). unfold is_uint32. lia.
Qed.

(** Masking with [0xffffffff] leaves exactly a 32-bit value. *)
Lemma to_uint32_land_32 (z : Z) :
  to_uint32 (Z.land z 0xffffffff) = Z.land z (Z.ones 32).
Proof.
  change 0xffffffff with (Z.ones 32). apply to_uint32_id.
  pose proof (land_ones_range z 32). unfold is_uint32. lia.
Qed.

Lemma land_ones_32_id (z : Z) : is_uint32 z → Z.land z (Z.ones 32) = z.
Proof.
  intros Hz. rewrite Z.land_ones by done. by apply Z.mod_small.
Qed.

(** ** Decoding *)

Section DecodingFacts.
Context {Symbol : Type}.
Implicit Types r : Relocation Symbol.

Lemma decode_type (raw : raw_record) :
  type (decode (Symbol:=Symbol) raw) = raw_type raw.
Proof.
  destruct raw; unfold type; cbn [decode raw_type];
    [apply to_uint32_land_8 | apply to_uint32_land_8
    | apply to_uint32_land_32 | apply to_uint32_land_32].
Qed.

(** A record whose fields fit their C types decodes to an entity whose
    fields fit theirs. *)
Lemma decode_wf (raw : raw_record) :
  raw_wf raw → Relocation_wf (decode (Symbol:=Symbol) raw).
Proof.
  unfold Relocation_wf.
  destruct raw as [h|h|h|h]; cbn; unfold Elf32_Rel.wf, Elf32_Rela.wf,
    Elf64_Rel.wf, Elf64_Rela.wf, is_uint64, is_uint32, is_int64, is_int32;
    intros Hwf; (split; [lia|]); (split; [apply to_uint32_range | lia]).
Qed.

(** C1: each of the four decoding constructors yields an entity whose
    address is the record's [r_offset], whose type is the info field
    masked to its low 8 bits (32-bit layouts) or low 32 bits (64-bit
    layouts), whose addend is [r_addend] for the Rela layouts and 0 for
    the Rel layouts, whose has-addend flag is set exactly for the Rela
    layouts, and whose architecture is [EM_NONE]; the accessors read
    back exactly these values. *)
Theorem decode_round_trip :
  (∀ h : Elf32_Rel.t,
     let r : Relocation Symbol := Relocation_Elf32_Rel h in
     address r = Elf32_Rel.r_offset h ∧
     type r = Z.land (Elf32_Rel.r_info h) (Z.ones 8) ∧
     addend r = 0 ∧ is_rela r = false ∧ is_rel r = true ∧
     architecture r = EM_NONE) ∧
  (∀ h : Elf32_Rela.t,
     let r : Relocation Symbol := Relocation_Elf32_Rela h in
     address r = Elf32_Rela.r_offset h ∧
     type r = Z.land (Elf32_Rela.r_info h) (Z.ones 8) ∧
     addend r = Elf32_Rela.r_addend h ∧ is_rela r = true ∧ is_rel r = false ∧
     architecture r = EM_NONE) ∧
  (∀ h : Elf64_Rel.t,
     let r : Relocation Symbol := Relocation_Elf64_Rel h in
     address r = Elf64_Rel.r_offset h ∧
     type r = Z.land (Elf64_Rel.r_info h) (Z.ones 32) ∧
     addend r = 0 ∧ is_rela r = false ∧ is_rel r = true ∧
     architecture r = EM_NONE) ∧
  (∀ h : Elf64_Rela.t,
     let r : Relocation Symbol := Relocation_Elf64_Rela h in
     address r = Elf64_Rela.r_offset h ∧
     type r = Z.land (Elf64_Rela.r_info h) (Z.ones 32) ∧
     addend r = Elf64_Rela.r_addend h ∧ is_rela r = true ∧ is_rel r = false ∧
     architecture r = EM_NONE).
Proof.
  repeat split.
  - apply (decode_type (Raw_Elf32_Rel h)).
  - apply (decode_type (Raw_Elf32_Rela h)).
  - apply (decode_type (Raw_Elf64_Rel h)).
  - apply (decode_type (Raw_Elf64_Rela h)).
Qed.

(** Every decoded entity is the one the explicit-value constructor
    builds from what the record carries, with addend 0 when the layout
    has no addend field. *)
Lemma decode_as_values (raw : raw_record) :
  decode (Symbol:=Symbol) raw =
  Relocation_values (raw_offset raw) (raw_type raw)
    (default 0 (raw_addend raw)) (raw_has_addend raw).
Proof.
  pose proof (decode_type raw) as Ht. unfold type in Ht.
  destruct raw; cbn in Ht |- *;
    unfold Relocation_Elf32_Rel, Relocation_Elf32_Rela,
      Relocation_Elf64_Rel, Relocation_Elf64_Rela, Relocation_values;
    cbn in Ht; by rewrite Ht.
Qed.
End DecodingFacts.

(** ** Explicit-value construction against decoding *)

Section ValuesFacts.
Context {Symbol : Type}.
Implicit Types r : Relocation Symbol.

Lemma same_accessors_refl r : same_accessors r r.
Proof. by repeat split. Qed.

(** A layout without an addend field always decodes to addend 0. *)
Lemma decode_rel_addend (raw : raw_record) :
  raw_has_addend raw = false → addend (decode (Symbol:=Symbol) raw) = 0.
Proof. by destruct raw. Qed.

(** For every in-range tuple some well-formed raw record of the layout
    selected by the flag carries it: the 64-bit one. *)
Lemma carrier_exists (a t ad : Z) (f : bool) :
  is_uint64 a → is_uint32 t → is_int64 ad →
  ∃ raw, raw_wf raw ∧ carries raw a t ad f.
Proof.
  intros Ha Ht Had. destruct f.
  - exists (Raw_Elf64_Rela
      {| Elf64_Rela.r_offset := a; Elf64_Rela.r_info := t;
         Elf64_Rela.r_addend := ad |}).
    unfold carries; cbn. unfold Elf64_Rela.wf; cbn.
    rewrite land_ones_32_id by done.
    unfold is_uint64, is_uint32, is_int64 in *. repeat split; lia || done.
  - exists (Raw_Elf64_Rel {| Elf64_Rel.r_offset := a; Elf64_Rel.r_info := t |}).
    unfold carries; cbn. unfold Elf64_Rel.wf; cbn.
    rewrite land_ones_32_id by done.
    unfold is_uint64, is_uint32, is_int64 in *. repeat split; lia || done.
Qed.

(** C3 (amended): for every in-range tuple whose addend is 0 when the
    has-addend flag is false, a raw record of the matching layout
    carrying the same values exists, and the entity built by the
    explicit-value constructor is the entity decoded from any such
    record: the same accessor results, and the architecture is
    [EM_NONE]. *)
Theorem values_matches_decoded (a t ad : Z) (f : bool) :
  is_uint64 a → is_uint32 t → is_int64 ad →
  (f = false → ad = 0) →
  (∃ raw, raw_wf raw ∧ carries raw a t ad f) ∧
  (∀ raw, carries raw a t ad f →
     Relocation_values (Symbol:=Symbol) a t ad f = decode raw ∧
     same_accessors (Relocation_values (Symbol:=Symbol) a t ad f) (decode raw) ∧
     symbol (Relocation_values (Symbol:=Symbol) a t ad f) = symbol (decode raw)) ∧
  architecture (Relocation_values (Symbol:=Symbol) a t ad f) = EM_NONE.
Proof.
  intros Ha Ht Had Hconv. split; [by apply carrier_exists|]. split; [|done].
  intros raw (Hflag & Hoff & Htype & Hadd).
  assert (Relocation_values (Symbol:=Symbol) a t ad f = decode raw) as ->.
  { rewrite decode_as_values, Hflag, Hoff, Htype. f_equal.
    unfold raw_has_addend in Hflag.
    destruct (raw_addend raw) as [x|]; cbn in *; [done|].
    by rewrite Hconv. }
  split; [done|]. split; [apply same_accessors_refl | done].
Qed.
End ValuesFacts.

(** ** Copying, the layout predicates and the mutators *)

Section FieldFacts.
Context {Symbol : Type}.
Implicit Types r other : Relocation Symbol.

(** C8: the copy constructor preserves address, type, addend, the
    has-addend flag and the architecture, and never copies the symbol
    binding: the copy has no symbol even when the original has one. *)
Theorem copy_drops_symbol other :
  address (Relocation_copy other) = address other ∧
  type (Relocation_copy other) = type other ∧
  addend (Relocation_copy other) = addend other ∧
  is_rela (Relocation_copy other) = is_rela other ∧
  architecture (Relocation_copy other) = architecture other ∧
  has_symbol (Relocation_copy other) = false ∧
  symbol_ (Relocation_copy other) = None.
Proof. by repeat split. Qed.

(** C9: [is_rel] is the negation of [is_rela] on every entity, so
    exactly one of the two layout predicates holds. *)
Theorem is_rel_negates_is_rela r :
  is_rel r = negb (is_rela r) ∧ xorb (is_rel r) (is_rela r) = true.
Proof.
  split; [done|]. unfold is_rel, is_rela. by destruct (isRela_ r).
Qed.

(** C10: each of the three mutators writes its own field and leaves
    every other field as it was: the other two of address, type and
    addend, the has-addend flag, the architecture and the symbol
    binding. *)
Theorem mutators_frame r (x : Z) :
  (address (set_address r x) = x ∧
   type (set_address r x) = type r ∧
   addend (set_address r x) = addend r ∧
   is_rela (set_address r x) = is_rela r ∧
   architecture (set_address r x) = architecture r ∧
   symbol_ (set_address r x) = symbol_ r) ∧
  (type (set_type r x) = x ∧
   address (set_type r x) = address r ∧
   addend (set_type r x) = addend r ∧
   is_rela (set_type r x) = is_rela r ∧
   architecture (set_type r x) = architecture r ∧
   symbol_ (set_type r x) = symbol_ r) ∧
  (addend (set_addend r x) = x ∧
   address (set_addend r x) = address r ∧
   type (set_addend r x) = type r ∧
   is_rela (set_addend r x) = is_rela r ∧
   architecture (set_addend r x) = architecture r ∧
   symbol_ (set_addend r x) = symbol_ r).
Proof. by repeat split. Qed.

(** The accessors that depend on the symbol are framed too. *)
Lemma mutators_keep_symbol r (x : Z) :
  has_symbol (set_address r x) = has_symbol r ∧
  has_symbol (set_type r x) = has_symbol r ∧
  has_symbol (set_addend r x) = has_symbol r ∧
  symbol (set_address r x) = symbol r ∧
  symbol (set_type r x) = symbol r ∧
  symbol (set_addend r x) = symbol r.
Proof. by repeat split. Qed.
End FieldFacts.

(** ** Size resolution *)

(** Membership in a list of distinct constructors, refuted case by case. *)
Ltac refute_elem H :=
  repeat (apply elem_of_cons in H as [H|H]; [discriminate H|]);
  by apply elem_of_nil in H.

Section SizeFacts.
Context {Symbol : Type} `{RelocationSizes} `{EnumToString}.
Implicit Types r : Relocation Symbol.

Lemma supported_iff_table (a : ARCH) :
  a ∈ supported_architectures ↔ is_Some (size_table a).
Proof.
  unfold supported_architectures.
  destruct a; cbn; split; intros Hs;
    solve [ by eexists | repeat constructor | by destruct Hs | refute_elem Hs ].
Qed.

Lemma supported_iff_name (a : ARCH) (t : Z) :
  a ∈ supported_architectures ↔ is_Some (type_name a t).
Proof.
  unfold supported_architectures.
  destruct a; cbn; split; intros Hs;
    solve [ by eexists | repeat constructor | by destruct Hs | refute_elem Hs ].
Qed.

(** [size] is the table lookup under a supported architecture. *)
Lemma size_supported r (table : gmap Z Z) (name : string) :
  size_table (architecture r) = Some table →
  type_name (architecture r) (type r) = Some name →
  size r =
    match table !! type r with
    | Some n => Ok n
    | None =>
        throw (not_implemented
          (to_string_ARCH (architecture r) +:+ " - " +:+ name))
    end.
Proof.
  unfold size. destruct (architecture r); cbn; intros Ht Hn; try done;
    by simplify_eq.
Qed.

Lemma size_unsupported r :
  size_table (architecture r) = None →
  size r = throw (not_implemented (to_string_ARCH (architecture r))).
Proof. unfold size. by destruct (architecture r). Qed.

(** C2: size resolution returns the tabulated size exactly when the
    architecture is one of x86-64, i386, ARM, AArch64 and the type is a
    key of that architecture's table; under a supported architecture a
    type absent from the table fails with [not_implemented] naming the
    architecture and the type; an architecture outside the set fails
    with [not_implemented] naming the architecture alone; the outcome
    is always either a size or that failure. *)
Theorem size_resolution r :
  (∀ n, size r = Ok n ↔
     architecture r ∈ supported_architectures ∧
     ∃ table, size_table (architecture r) = Some table ∧
              table !! type r = Some n) ∧
  (architecture r ∈ supported_architectures →
     ∃ table name,
       size_table (architecture r) = Some table ∧
       type_name (architecture r) (type r) = Some name ∧
       (table !! type r = None →
        size r = throw (not_implemented
          (to_string_ARCH (architecture r) +:+ " - " +:+ name)))) ∧
  (architecture r ∉ supported_architectures →
     size r = throw (not_implemented (to_string_ARCH (architecture r)))) ∧
  ((∃ n, size r = Ok n) ∨ (∃ what, size r = throw (not_implemented what))).
Proof.
  destruct (size_table (architecture r)) as [table|] eqn:Htable.
  - assert (architecture r ∈ supported_architectures) as Hsup.
    { apply supported_iff_table. by rewrite Htable. }
    destruct (proj1 (supported_iff_name _ (type r)) Hsup) as [name Hname].
    pose proof (size_supported r table name Htable Hname) as Hsize.
    repeat split.
    + done.
    + exists table. split; [done|].
      rewrite Hsize in *. destruct (table !! type r); by simplify_eq.
    + intros (_ & table' & ? & Hl). simplify_eq. by rewrite Hsize, Hl.
    + intros _. exists table, name. repeat split; [done|].
      intros Hl. by rewrite Hsize, Hl.
    + done.
    + rewrite Hsize. destruct (table !! type r); [left | right]; by eexists.
  - assert (architecture r ∉ supported_architectures) as Hnot.
    { rewrite supported_iff_table, Htable. by intros [? ?]. }
    pose proof (size_unsupported r Htable) as Hsize.
    repeat split.
    + by rewrite Hsize in *.
    + by rewrite Hsize in *.
    + by intros (? & _).
    + done.
    + done.
    + right. by eexists.
Qed.
End SizeFacts.

(** ** Symbol binding *)

Section SymbolFacts.
Context {Symbol : Type}.
Implicit Types r other : Relocation Symbol.

Lemma has_symbol_spec r : has_symbol r = true ↔ ∃ s, symbol_ r = Some s.
Proof.
  unfold has_symbol. destruct (symbol_ r); split; intros Hs;
    solve [ done | by destruct Hs | by eexists ].
Qed.

Lemma symbol_bound r (s : Symbol) : symbol r = Ok s ↔ symbol_ r = Some s.
Proof.
  unfold symbol. destruct (symbol_ r); cbn; split; intros Hs;
    by simplify_eq.
Qed.

Lemma decode_unbound (raw : raw_record) :
  has_symbol (decode (Symbol:=Symbol) raw) = false.
Proof. by destruct raw. Qed.

(** Nothing but the binding operation produces a bound entity. *)
Lemma bind_free_unbound r : bind_free r → symbol_ r = None.
Proof.
  induction 1 as [ | | raw | | | | | | r other _ IHother
                 | r other _ _ _ IHother | r other _ IHr _ _ ]; cbn; try done.
  by destruct raw.
Qed.

(** C6: [has_symbol] is false right after every constructor (default,
    copy, the four decoders, explicit values) and stays false under
    every operation other than binding applied to entities without a
    symbol; binding makes it true.  Reading
    the symbol of an unbound entity fails with [not_found]; the read
    succeeds only on a bound entity, and then returns the bound
    symbol. *)
Theorem symbol_binding :
  (has_symbol (Relocation_default (Symbol:=Symbol)) = false ∧
   (∀ other, has_symbol (Relocation_copy other) = false) ∧
   (∀ h, has_symbol (Relocation_Elf32_Rel (Symbol:=Symbol) h) = false) ∧
   (∀ h, has_symbol (Relocation_Elf32_Rela (Symbol:=Symbol) h) = false) ∧
   (∀ h, has_symbol (Relocation_Elf64_Rel (Symbol:=Symbol) h) = false) ∧
   (∀ h, has_symbol (Relocation_Elf64_Rela (Symbol:=Symbol) h) = false) ∧
   (∀ a t ad f, has_symbol (Relocation_values (Symbol:=Symbol) a t ad f) = false)) ∧
  (∀ r, bind_free r → has_symbol r = false) ∧
  (∀ r s, has_symbol (bind_symbol r s) = true ∧ symbol (bind_symbol r s) = Ok s) ∧
  (∀ r, has_symbol r = false →
     symbol r = throw (not_found "No symbol associated with this relocation")) ∧
  (∀ r s, symbol r = Ok s → has_symbol r = true ∧ symbol_ r = Some s) ∧
  (∀ r s, symbol_ r = Some s → symbol r = Ok s).
Proof.
  split; [by repeat split|].
  split.
  { intros r Hr. unfold has_symbol. by rewrite (bind_free_unbound r Hr). }
  split; [done|].
  split.
  { intros r. unfold has_symbol, symbol. by destruct (symbol_ r). }
  split.
  - intros r s Hs. apply symbol_bound in Hs. split; [|done].
    apply has_symbol_spec. by exists s.
  - intros r s. apply symbol_bound.
Qed.
End SymbolFacts.

(** ** Hashing and equality *)

Section IdentityFacts.
Context {Symbol V : Type}.
Implicit Types a b r : Relocation Symbol.

(** Whatever the visitor, [accept] shows it the sequence [visit_order]
    and cannot fail. *)
Lemma accept_replay `{Visitor Symbol V} r (visitor : V) :
  accept r visitor = Ok (replay (visit_order r) visitor).
Proof.
  unfold accept, has_symbol, symbol, visit_order, address, addend, type,
    architecture.
  by destruct (symbol_ r).
Qed.

Lemma visit_order_inj a b :
  visit_order a = visit_order b ↔
  address a = address b ∧ addend a = addend b ∧ type a = type b ∧
  architecture a = architecture b ∧ symbol_ a = symbol_ b.
Proof.
  unfold visit_order, address, addend, type, architecture. split.
  - intros Heq. destruct (symbol_ a), (symbol_ b); by simplify_eq.
  - by intros (-> & -> & -> & -> & ->).
Qed.

Context `{Hash Symbol V}.

Lemma Hash_hash_digest r : Hash_hash r = Ok (digest (visit_order r)).
Proof. unfold Hash_hash. by rewrite accept_replay. Qed.

Lemma operator_eq_digest a b :
  operator_eq a b = Ok (digest (visit_order a) =? digest (visit_order b)).
Proof. unfold operator_eq. by rewrite !Hash_hash_digest. Qed.

Lemma operator_eq_true a b :
  operator_eq a b = Ok true ↔ Hash_hash a = Hash_hash b.
Proof.
  rewrite operator_eq_digest, !Hash_hash_digest. split.
  - intros Heq. f_equal. apply Z.eqb_eq. by simplify_eq.
  - intros Heq. f_equal. apply Z.eqb_eq. by simplify_eq.
Qed.

Lemma operator_eq_false a b :
  operator_eq a b = Ok false ↔ Hash_hash a ≠ Hash_hash b.
Proof.
  rewrite operator_eq_digest, !Hash_hash_digest. split.
  - intros Heq Hd. assert ((digest (visit_order a) =? digest (visit_order b)) = false)
      as Hne by (by simplify_eq).
    apply Z.eqb_neq in Hne. apply Hne. by simplify_eq.
  - intros Hne. f_equal. apply Z.eqb_neq. intros Hd. apply Hne. by rewrite Hd.
Qed.

Lemma operator_ne_digest a b :
  operator_ne a b =
  Ok (negb (digest (visit_order a) =? digest (visit_order b))).
Proof. unfold operator_ne. by rewrite operator_eq_digest. Qed.
End IdentityFacts.

Section EqualityFacts.
Context {Symbol V : Type} `{Hash Symbol V}.
Implicit Types a b r : Relocation Symbol.

(** Entities that agree on the five visited fields have one hash. *)
Lemma Hash_hash_congruence a b :
  address a = address b → addend a = addend b → type a = type b →
  architecture a = architecture b → symbol_ a = symbol_ b →
  Hash_hash a = Hash_hash b.
Proof.
  intros. rewrite !Hash_hash_digest.
  by replace (visit_order a) with (visit_order b) by by apply visit_order_inj.
Qed.

(** Changing one visited field changes what the visitor is shown. *)
Lemma changed_one_visit_order a b :
  changed_one a b → visit_order a ≠ visit_order b.
Proof.
  intros Hch Heq. apply visit_order_inj in Heq as (Ha & Had & Ht & Har & Hs).
  destruct Hch; cbn in *; congruence.
Qed.

(** C4: equality holds exactly when the two structural hashes are
    equal, and inequality exactly when they differ; the hash is the
    digest of a fresh hasher that was shown the address, the addend,
    the type, the architecture and, only when a symbol is bound, the
    symbol, in this order; entities with the same fields and the same
    symbol binding hash identically however they were built. *)
Theorem equality_is_hash_equality a b :
  (operator_eq a b = Ok true ↔ Hash_hash a = Hash_hash b) ∧
  (operator_eq a b = Ok false ↔ Hash_hash a ≠ Hash_hash b) ∧
  (∃ eq, operator_eq a b = Ok eq ∧ operator_ne a b = Ok (negb eq)) ∧
  (∀ r,
     let shown :=
       visit_ARCH (architecture r)
         (visit_uint32 (type r)
            (visit_int64 (addend r)
               (visit_uint64 (address r) Hash_init))) in
     Hash_hash r =
       Ok (Hash_value
             match symbol_ r with
             | Some s => visit_Symbol s shown
             | None => shown
             end)) ∧
  (∀ r, @accept Symbol _ (Recorder Symbol) r [] = Ok (visit_order r)) ∧
  (address a = address b → addend a = addend b → type a = type b →
   architecture a = architecture b → symbol_ a = symbol_ b →
   Hash_hash a = Hash_hash b ∧ operator_eq a b = Ok true).
Proof.
  split; [apply operator_eq_true|].
  split; [apply operator_eq_false|].
  split.
  { eexists. split; [apply operator_eq_digest | apply operator_ne_digest]. }
  split.
  { intros r. cbn zeta. rewrite Hash_hash_digest.
    unfold digest, visit_order, address, addend, type, architecture.
    by destruct (symbol_ r). }
  split.
  { intros r. rewrite accept_replay. unfold visit_order.
    by destruct (symbol_ r). }
  intros. assert (Hash_hash a = Hash_hash b) as Hh
    by by apply Hash_hash_congruence.
  split; [done|]. by apply operator_eq_true.
Qed.

(** C5 (amended): two entities with identical address, type, addend,
    has-addend flag, architecture and symbol binding are equal; two
    entities that differ in the has-addend flag alone are equal as
    well, the flag being no part of the hash; changing one of address,
    addend, type, architecture or symbol binding on one of them makes
    them unequal whenever the hasher does not collide on the two
    sequences, of address, addend, type, architecture and bound symbol,
    that the two entities consist of. *)
Theorem equality_under_field_changes a b :
  (address a = address b → type a = type b → addend a = addend b →
   is_rela a = is_rela b → architecture a = architecture b →
   symbol_ a = symbol_ b →
   operator_eq a b = Ok true ∧ operator_ne a b = Ok false) ∧
  (address a = address b → type a = type b → addend a = addend b →
   is_rela a ≠ is_rela b → architecture a = architecture b →
   symbol_ a = symbol_ b →
   operator_eq a b = Ok true ∧ operator_ne a b = Ok false) ∧
  (changed_one a b → Hash_separates (visit_order a) (visit_order b) →
   operator_eq a b = Ok false ∧ operator_ne a b = Ok true).
Proof.
  assert (∀ flag : Prop,
    address a = address b → type a = type b → addend a = addend b →
    flag → architecture a = architecture b → symbol_ a = symbol_ b →
    operator_eq a b = Ok true ∧ operator_ne a b = Ok false) as Hsame.
  { intros flag Ha Ht Had _ Har Hs.
    assert (operator_eq a b = Ok true) as Heq
      by by apply operator_eq_true, Hash_hash_congruence.
    split; [done|]. unfold operator_ne. by rewrite Heq. }
  split; [apply Hsame|]. split; [apply Hsame|].
  intros Hch Hsep.
  assert (operator_eq a b = Ok false) as Hne.
  { apply operator_eq_false. rewrite !Hash_hash_digest.
    intros [= Hcollide]. revert Hcollide.
    by apply Hsep, changed_one_visit_order. }
  split; [done|]. unfold operator_ne. by rewrite Hne.
Qed.
End EqualityFacts.

(** ** Printing *)

Lemma string_app_assoc (s1 s2 s3 : string) :
  (s1 +:+ s2) +:+ s3 = s1 +:+ (s2 +:+ s3).
Proof.
  induction s1 as [|c s1 IH]; [done|].
  change (String c ((s1 +:+ s2) +:+ s3) = String c (s1 +:+ (s2 +:+ s3))).
  by rewrite IH.
Qed.

Section PrintFacts.
Context {Symbol : Type} `{SymbolOps Symbol} `{EnumToString}.
Implicit Types entry : Relocation Symbol.

(** What the three insertions append to a stream that is in hexadecimal
    base and left-adjusted. *)
Lemma put_fields_buffer (os : ostream) (a : Z) (ty name : string) :
  os_buffer
    (put_string name (put_setw 10
      (put_string ty (put_setw 10
        (put_uint64 a (put_setw 10 (put_left (put_hex os)))))))) =
  os_buffer os +:+
    left_justified (os_fill os) 10 (hex_digits a) +:+
    left_justified (os_fill os) 10 ty +:+
    left_justified (os_fill os) 10 name.
Proof.
  unfold put_uint64, put_string, pad_field, left_justified; cbn.
  by rewrite !string_app_assoc.
Qed.

(** C7: printing an entity never fails and appends three left-justified
    columns of width 10: the address in hexadecimal, the type and the
    symbol.  Under an architecture outside the supported set the type
    column is the decimal type code, under a supported one the name
    [to_string] gives the code; the symbol column is empty when no
    symbol is bound, the demangled name when the bound symbol has one,
    and the raw name when demangling is not supported for it. *)
Theorem print_never_fails (os : ostream) entry :
  ∃ (type_field symbol_field : string) (os' : ostream),
    operator_shl os entry = Ok os' ∧
    os_buffer os' =
      os_buffer os +:+
        left_justified (os_fill os) 10 (hex_digits (address entry)) +:+
        left_justified (os_fill os) 10 type_field +:+
        left_justified (os_fill os) 10 symbol_field ∧
    (architecture entry ∉ supported_architectures →
       type_field = std_to_string (type entry)) ∧
    (∀ name, type_name (architecture entry) (type entry) = Some name →
       type_field = name) ∧
    (has_symbol entry = false → symbol_field = ""%string) ∧
    (∀ s demangled, symbol_ entry = Some s →
       Symbol_demangled_name s = Ok demangled → symbol_field = demangled) ∧
    (∀ s e, symbol_ entry = Some s →
       Symbol_demangled_name s = throw e → symbol_field = Symbol_name s).
Proof.
  exists (match architecture entry with
          | EM_X86_64 => to_string_RELOC_x86_64 (type entry)
          | EM_386 => to_string_RELOC_i386 (type entry)
          | EM_ARM => to_string_RELOC_ARM (type entry)
          | EM_AARCH64 => to_string_RELOC_AARCH64 (type entry)
          | _ => std_to_string (type entry)
          end).
  assert (∀ symbol_field : string,
    (if has_symbol entry then
       symbol ← symbol entry;
       match Symbol_demangled_name symbol with
       | inr demangled => Ok demangled
       | inl (not_supported _) => Ok (Symbol_name symbol)
       | inl e => throw e
       end
     else Ok ""%string) = Ok symbol_field →
    ∃ os', operator_shl os entry = Ok os' ∧
      os_buffer os' =
        os_buffer os +:+
          left_justified (os_fill os) 10 (hex_digits (address entry)) +:+
          left_justified (os_fill os) 10
            (match architecture entry with
             | EM_X86_64 => to_string_RELOC_x86_64 (type entry)
             | EM_386 => to_string_RELOC_i386 (type entry)
             | EM_ARM => to_string_RELOC_ARM (type entry)
             | EM_AARCH64 => to_string_RELOC_AARCH64 (type entry)
             | _ => std_to_string (type entry)
             end) +:+
          left_justified (os_fill os) 10 symbol_field) as Hrun.
  { intros symbol_field Hname. unfold operator_shl. rewrite Hname. cbn.
    eexists. split; [done|]. apply put_fields_buffer. }
  assert (∀ P : Prop, P →
    (architecture entry ∉ supported_architectures →
       match architecture entry with
       | EM_X86_64 => to_string_RELOC_x86_64 (type entry)
       | EM_386 => to_string_RELOC_i386 (type entry)
       | EM_ARM => to_string_RELOC_ARM (type entry)
       | EM_AARCH64 => to_string_RELOC_AARCH64 (type entry)
       | _ => std_to_string (type entry)
       end = std_to_string (type entry)) ∧
    (∀ name, type_name (architecture entry) (type entry) = Some name →
       match architecture entry with
       | EM_X86_64 => to_string_RELOC_x86_64 (type entry)
       | EM_386 => to_string_RELOC_i386 (type entry)
       | EM_ARM => to_string_RELOC_ARM (type entry)
       | EM_AARCH64 => to_string_RELOC_AARCH64 (type entry)
       | _ => std_to_string (type entry)
       end = name) ∧ P) as Htype.
  { intros P HP. split; [|split; [|done]].
    - intros Hnot. destruct (architecture entry); try done;
        exfalso; apply Hnot; unfold supported_architectures;
        repeat constructor.
    - intros name. destruct (architecture entry); cbn; intros Hn;
        by simplify_eq. }
  unfold has_symbol, symbol in Hrun |- *.
  destruct (symbol_ entry) as [s|] eqn:Hs.
  - destruct (Symbol_demangled_name s) as [e|demangled] eqn:Hd.
    + destruct (Symbol_demangled_name_throws s e Hd) as [what ->].
      destruct (Hrun (Symbol_name s)) as (os' & Hos & Hbuf).
      { cbn. by rewrite Hd. }
      exists (Symbol_name s), os'. split; [done|]. split; [done|].
      apply Htype. split; [done|]. split.
      * intros ? ? [= <-] Hd'. rewrite Hd in Hd'. discriminate Hd'.
      * by intros ? ? [= <-] _.
    + destruct (Hrun demangled) as (os' & Hos & Hbuf).
      { cbn. by rewrite Hd. }
      exists demangled, os'. split; [done|]. split; [done|].
      apply Htype. split; [done|]. split.
      * intros ? ? [= <-] Hd'. rewrite Hd in Hd'. by injection Hd'.
      * intros ? ? [= <-] Hd'. rewrite Hd in Hd'. discriminate Hd'.
  - destruct (Hrun ""%string) as (os' & Hos & Hbuf); [done|].
    exists ""%string, os'. split; [done|]. split; [done|].
    apply Htype. by repeat split.
Qed.
End PrintFacts.

(** * Further properties of the translation unit *)

(** ** Swapping and assigning *)

Section SwapFacts.
Context {Symbol : Type}.
Implicit Types a b this arg : Relocation Symbol.

(** X1: [swap] exchanges the two objects whole, the has-addend flag and
    the symbol binding included, so a second swap restores both. *)
Theorem swap_exchanges a b :
  swap a b = (b, a) ∧
  swap (fst (swap a b)) (snd (swap a b)) = (a, b) ∧
  symbol (fst (swap a b)) = symbol b ∧
  symbol (snd (swap a b)) = symbol a.
Proof. by destruct a, b. Qed.

(** The target of an assignment takes the state of the parameter. *)
Lemma operator_assign_parameter this other :
  operator_assign this other = other.
Proof. by destruct other. Qed.

(** X2: an assignment leaves the target in the state of the by-value
    parameter, whole: a parameter that was built in place with a symbol
    hands the symbol over.  When the parameter is copy-constructed from
    an object, as in [a = b], the target ends with that object's address,
    type, addend, has-addend flag and architecture and with no symbol,
    whatever the target and the object were bound to; [a = a] then keeps
    an entity without a symbol unchanged and unbinds one that has a
    symbol. *)
Theorem assignment_takes_parameter this other arg :
  operator_assign this other = other ∧
  symbol (operator_assign this other) = symbol other ∧
  operator_assign this (Relocation_copy arg) = Relocation_copy arg ∧
  has_symbol (operator_assign this (Relocation_copy arg)) = false ∧
  symbol (operator_assign this (Relocation_copy arg)) =
    throw (not_found "No symbol associated with this relocation") ∧
  (has_symbol this = false →
   operator_assign this (Relocation_copy this) = this) ∧
  (has_symbol this = true →
   operator_assign this (Relocation_copy this) ≠ this).
Proof.
  rewrite !operator_assign_parameter. repeat split.
  - destruct this as [? ? ? ? [s|] ?]; [discriminate | done].
  - destruct this as [? ? ? ? [s|] ?]; [|discriminate].
    intros _ Heq. discriminate Heq.
Qed.

(** X11: the mutators behave as independent cells: a later write to a
    field replaces an earlier one, writes to different fields commute,
    and writing back the value just read changes nothing. *)
Theorem mutators_compose a (x y : Z) :
  (set_address (set_address a x) y = set_address a y ∧
   set_type (set_type a x) y = set_type a y ∧
   set_addend (set_addend a x) y = set_addend a y) ∧
  (set_address (set_type a x) y = set_type (set_address a y) x ∧
   set_address (set_addend a x) y = set_addend (set_address a y) x ∧
   set_type (set_addend a x) y = set_addend (set_type a y) x) ∧
  (set_address a (address a) = a ∧
   set_type a (type a) = a ∧
   set_addend a (addend a) = a).
Proof. by destruct a. Qed.
End SwapFacts.

(** ** What decoding keeps of a record *)

Section DecodingKernel.
Context {Symbol : Type}.

(** X9: the type of a decoded entity always fits 32 bits, and 8 bits
    when the record is a 32-bit one; when every field of the record is
    in the range of its C type, every field of the entity is. *)
Theorem decode_in_range (raw : raw_record) :
  is_uint32 (type (decode (Symbol:=Symbol) raw)) ∧
  match raw with
  | Raw_Elf32_Rel _ | Raw_Elf32_Rela _ =>
      0 ≤ type (decode (Symbol:=Symbol) raw) < 2 ^ 8
  | Raw_Elf64_Rel _ | Raw_Elf64_Rela _ => True
  end ∧
  (raw_wf raw → Relocation_wf (decode (Symbol:=Symbol) raw)).
Proof.
  split; [|split].
  - destruct raw; apply to_uint32_range.
  - rewrite decode_type. destruct raw; cbn [raw_type]; try done;
      by apply land_ones_range.
  - apply decode_wf.
Qed.

(** X10: two records decode to the same entity exactly when they agree
    on the offset, on the info field masked to the type width of their
    layout, on the presence of an addend field and on the addend, an
    absent one counting as 0.  Neither the bits of the info field above
    the mask nor the word size of the record leave a trace. *)
Theorem decode_kernel (raw1 raw2 : raw_record) :
  decode (Symbol:=Symbol) raw1 = decode raw2 ↔
  raw_offset raw1 = raw_offset raw2 ∧
  raw_type raw1 = raw_type raw2 ∧
  default 0 (raw_addend raw1) = default 0 (raw_addend raw2) ∧
  raw_has_addend raw1 = raw_has_addend raw2.
Proof.
  rewrite !decode_as_values. unfold Relocation_values. split.
  - intros Heq. by simplify_eq.
  - by intros (-> & -> & -> & ->).
Qed.
End DecodingKernel.

(** ** Size resolution along the other operations *)

Section SizeFrame.
Context {Symbol : Type} `{RelocationSizes} `{EnumToString}.
Implicit Types r this : Relocation Symbol.

(** [size] reads the architecture and the type and nothing else. *)
Lemma size_ext r1 r2 :
  architecture r1 = architecture r2 → type r1 = type r2 →
  size r1 = size r2.
Proof. unfold size. by intros -> ->. Qed.

(** X5: on a freshly constructed entity, whether default, decoded from
    any of the four layouts or built from explicit values, [size] fails
    with [not_implemented] naming the [EM_NONE] architecture, whatever
    the type code and the tables: no size is available before the owner
    of the entity sets its architecture. *)
Theorem fresh_entity_has_no_size :
  size (Relocation_default (Symbol:=Symbol)) =
    throw (not_implemented (to_string_ARCH EM_NONE)) ∧
  (∀ raw, size (decode (Symbol:=Symbol) raw) =
     throw (not_implemented (to_string_ARCH EM_NONE))) ∧
  (∀ a t ad f, size (Relocation_values (Symbol:=Symbol) a t ad f) =
     throw (not_implemented (to_string_ARCH EM_NONE))).
Proof.
  split; [done|]. split; [|done]. intros raw. by destruct raw.
Qed.

(** X6: the outcome of [size], result or failure, is the same for two
    entities with the same architecture and type; it survives a change
    of address or addend, a copy, an assignment, whether the parameter
    is the entity itself or a copy of it, and a swap. *)
Theorem size_frame r this (x : Z) :
  (∀ r', architecture r = architecture r' → type r = type r' →
         size r = size r') ∧
  size (set_address r x) = size r ∧
  size (set_addend r x) = size r ∧
  size (Relocation_copy r) = size r ∧
  size (operator_assign this r) = size r ∧
  size (fst (swap this r)) = size r ∧
  size (snd (swap this r)) = size this ∧
  size (operator_assign this (Relocation_copy r)) = size r.
Proof.
  split; [intros r'; apply size_ext|].
  repeat split; by apply size_ext.
Qed.
End SizeFrame.

(** ** Equality as a relation *)

Section EqualityRelation.
Context {Symbol V : Type} `{Hash Symbol V}.
Implicit Types a b c r : Relocation Symbol.


(** X4: a copy compares equal to its original when the original has no
    symbol, being then the same entity; the copy of an entity with a
    symbol lacks the symbol and compares unequal to the original unless
    the hasher collides on the original's five visits and the first
    four of them. *)
Theorem copy_equality r :
  (has_symbol r = false →
   Relocation_copy r = r ∧ operator_eq (Relocation_copy r) r = Ok true) ∧
  (has_symbol r = true →
   Hash_separates (visit_order (Relocation_copy r)) (visit_order r) →
   operator_eq (Relocation_copy r) r = Ok false ∧
   operator_ne (Relocation_copy r) r = Ok true).
Proof.
  split.
  - intros Hnone.
    assert (Relocation_copy r = r) as Hcopy.
    { destruct r as [? ? ? ? [s|] ?]; [discriminate Hnone | done]. }
    split; [done|]. rewrite Hcopy. by apply operator_eq_true.
  - intros Hsome Hsep.
    assert (operator_eq (Relocation_copy r) r = Ok false) as Hne.
    { apply operator_eq_false. rewrite !Hash_hash_digest.
      intros [= Hcollide]. revert Hcollide. apply Hsep.
      rewrite visit_order_inj.
      intros (_ & _ & _ & _ & Hs). cbn in Hs.
      unfold has_symbol in Hsome. rewrite <- Hs in Hsome.
      discriminate Hsome. }
    split; [done|]. unfold operator_ne. by rewrite Hne.
Qed.
End EqualityRelation.

(** ** The printer and the stream *)

Lemma string_app_length (s1 s2 : string) :
  String.length (s1 +:+ s2) = (String.length s1 + String.length s2)%nat.
Proof.
  induction s1 as [|c s1 IH]; [done|].
  change (S (String.length (s1 +:+ s2)) =
          S (String.length s1 + String.length s2)).
  by rewrite IH.
Qed.

Lemma fill_chars_length (n : nat) (c : ascii) :
  String.length (fill_chars n c) = n.
Proof. induction n as [|n IH]; cbn; [done | by rewrite IH]. Qed.

(** A column is as wide as the wider of the field and the width. *)
Lemma left_justified_length (c : ascii) (w : nat) (s : string) :
  String.length (left_justified c w s) = Nat.max w (String.length s).
Proof.
  unfold left_justified. rewrite string_app_length, fill_chars_length. lia.
Qed.

Section PrinterFacts.
Context {Symbol : Type} `{SymbolOps Symbol} `{EnumToString}.
Implicit Types entry : Relocation Symbol.

(** The printer always runs to its last insertion, writing the type and
    symbol columns to a stream set to hexadecimal and left adjustment. *)
Lemma operator_shl_run (os : ostream) entry :
  operator_shl os entry =
  Ok (put_string (symbol_column entry) (put_setw 10
       (put_string (type_column entry) (put_setw 10
         (put_uint64 (address entry) (put_setw 10
           (put_left (put_hex os)))))))).
Proof.
  assert (type_column entry =
          match architecture entry with
          | EM_X86_64 => to_string_RELOC_x86_64 (type entry)
          | EM_386 => to_string_RELOC_i386 (type entry)
          | EM_ARM => to_string_RELOC_ARM (type entry)
          | EM_AARCH64 => to_string_RELOC_AARCH64 (type entry)
          | _ => std_to_string (type entry)
          end) as ->.
  { unfold type_column. by destruct (architecture entry). }
  unfold operator_shl, symbol_column, has_symbol, symbol.
  destruct (symbol_ entry) as [s|]; [|done]. cbn.
  destruct (Symbol_demangled_name s) as [e|demangled] eqn:Hd; [|done].
  by destruct (Symbol_demangled_name_throws s e Hd) as [what ->].
Qed.

(** X7: the printer overrides the base, the adjustment and the pending
    width it finds: whatever these three were set to on a stream,
    printing succeeds, appends the same text of at least 30 characters
    after what the stream already held, and leaves the stream in the
    same state, which is hexadecimal base, left adjustment, no pending
    width and the fill character it had. *)
Theorem print_overrides_stream_format
    (os : ostream) (b : fmt_base) (a : fmt_adjust) (w : nat) entry :
  ∃ (line : string) (os' : ostream),
    operator_shl os entry = Ok os' ∧
    operator_shl (with_format b a w os) entry = Ok os' ∧
    os_buffer os' = os_buffer os +:+ line ∧
    (30 ≤ String.length line)%nat ∧
    os_base os' = base_hex ∧
    os_adjust os' = adjust_left ∧
    os_width os' = O ∧
    os_fill os' = os_fill os.
Proof.
  exists (summary_line (os_fill os) entry). eexists.
  split; [apply operator_shl_run|].
  split; [by rewrite operator_shl_run|].
  split; [apply put_fields_buffer|].
  split; [|done].
  unfold summary_line. rewrite !string_app_length, !left_justified_length. lia.
Qed.

(** X8: the printed text is a function of the address, the type, the
    architecture and the symbol: two entities that agree on these print
    alike, whatever their addends and has-addend flags. *)
Theorem print_ignores_addend_and_flag (os : ostream) entry1 entry2 :
  address entry1 = address entry2 → type entry1 = type entry2 →
  architecture entry1 = architecture entry2 →
  symbol_ entry1 = symbol_ entry2 →
  operator_shl os entry1 = operator_shl os entry2.
Proof.
  intros Ha Ht Har Hs. rewrite !operator_shl_run.
  unfold type_column, symbol_column. by rewrite Ha, Ht, Har, Hs.
Qed.

(** X12: two entries printed one after the other land in the buffer back
    to back, in order, three columns each: the printer writes no
    separator and no line terminator, and the base and adjustment it
    leaves behind do not alter the second entry. *)
Theorem print_twice (os os1 os2 : ostream) entry1 entry2 :
  operator_shl os entry1 = Ok os1 →
  operator_shl os1 entry2 = Ok os2 →
  os_buffer os2 =
    os_buffer os +:+ summary_line (os_fill os) entry1 +:+
                     summary_line (os_fill os) entry2.
Proof.
  rewrite !operator_shl_run. intros [= <-] [= <-].
  rewrite put_fields_buffer. cbn [os_fill put_string put_setw put_uint64].
  rewrite put_fields_buffer. by rewrite string_app_assoc.
Qed.
End PrinterFacts.

(** ** What a visitor can observe *)

Section VisitorFacts.
Context {Symbol V : Type} `{Visitor Symbol V}.
Implicit Types r : Relocation Symbol.

(** X13: on every visitor [accept] succeeds, the guarded read of the
    symbol never raising [not_found]; it makes four calls on an entity
    without a symbol and five on one with a symbol; a copy is shown the
    first four of what its original is shown; and no visitor can tell
    apart two entities that agree on address, addend, type, architecture
    and symbol, so the has-addend flag is invisible to all of them. *)
Theorem accept_shows_fields r (visitor : V) :
  accept r visitor = Ok (replay (visit_order r) visitor) ∧
  length (visit_order r) = (if has_symbol r then 5 else 4)%nat ∧
  accept (Relocation_copy r) visitor =
    Ok (replay (take 4 (visit_order r)) visitor) ∧
  (∀ r', address r = address r' → addend r = addend r' →
         type r = type r' → architecture r = architecture r' →
         symbol_ r = symbol_ r' →
         accept r visitor = accept r' visitor).
Proof.
  split; [apply accept_replay|]. split; [|split].
  - unfold visit_order, has_symbol. by destruct (symbol_ r).
  - rewrite accept_replay. unfold visit_order. by destruct (symbol_ r).
  - intros r' Ha Had Ht Har Hs. rewrite !accept_replay.
    by replace (visit_order r') with (visit_order r)
      by by apply visit_order_inj.
Qed.
End VisitorFacts.

(** * The statements at work on the sample environment *)

Import Sample.

(** C3, as first stated, fails: built from explicit values with the
    has-addend flag off and addend 5, the entity keeps addend 5, while
    the implicit-addend record carrying the same offset and type decodes
    to addend 0. *)
Lemma values_keep_addend_without_flag :
  is_uint64 0x1000 ∧ is_uint32 2 ∧ is_int64 5 ∧
  raw_wf (Raw_Elf64_Rel Sample.example_rel) ∧
  carries (Raw_Elf64_Rel Sample.example_rel) 0x1000 2 5 false ∧
  addend (Relocation_values (Symbol:=Sample.Sym) 0x1000 2 5 false) = 5 ∧
  addend (decode (Symbol:=Sample.Sym) (Raw_Elf64_Rel Sample.example_rel)) = 0 ∧
  ¬ same_accessors
      (Relocation_values (Symbol:=Sample.Sym) 0x1000 2 5 false)
      (decode (Raw_Elf64_Rel Sample.example_rel)).
Proof.
  unfold is_uint64, is_uint32, is_int64.
  repeat split; try (cbn; lia); try reflexivity.
  unfold same_accessors. intros (_ & _ & Hadd & _). discriminate Hadd.
Qed.

Lemma values_matches_decoded_witness :
  (∃ raw, raw_wf raw ∧ carries raw 0x1000 2 (-8) true) ∧
  (∀ raw, carries raw 0x1000 2 (-8) true →
     Relocation_values (Symbol:=Sample.Sym) 0x1000 2 (-8) true = decode raw ∧
     same_accessors
       (Relocation_values (Symbol:=Sample.Sym) 0x1000 2 (-8) true) (decode raw) ∧
     symbol (Relocation_values (Symbol:=Sample.Sym) 0x1000 2 (-8) true) =
       symbol (decode raw)) ∧
  architecture (Relocation_values (Symbol:=Sample.Sym) 0x1000 2 (-8) true) =
    EM_NONE.
Proof.
  apply (values_matches_decoded 0x1000 2 (-8) true).
  - unfold is_uint64. lia.
  - unfold is_uint32. lia.
  - unfold is_int64. lia.
  - intros Hflag. discriminate Hflag.
Defined.

Lemma size_resolution_witness :
  size Sample.example_entity = Ok 8 ∧
  size (set_type Sample.example_entity 77) =
    throw (not_implemented "x86_64 - UNDEFINED") ∧
  size (Relocation_Elf64_Rela (Symbol:=Sample.Sym) Sample.example_rela) =
    throw (not_implemented "NONE").
Proof.
  split; [|split].
  - apply (proj1 (size_resolution Sample.example_entity)). split.
    + unfold supported_architectures. repeat constructor.
    + exists relocation_x86_64_sizes. split; reflexivity.
  - destruct (proj1 (proj2 (size_resolution (set_type Sample.example_entity 77))))
      as (table & name & Htable & Hname & Hsize).
    + unfold supported_architectures. repeat constructor.
    + injection Htable as <-. injection Hname as <-.
      apply Hsize. reflexivity.
  - refine (proj1 (proj2 (proj2 (size_resolution
      (Relocation_Elf64_Rela (Symbol:=Sample.Sym) Sample.example_rela)))) _).
    intros Hin. refute_elem Hin.
Defined.

Lemma symbol_binding_witness :
  has_symbol (set_address
    (decode (Symbol:=Sample.Sym) (Raw_Elf64_Rela Sample.example_rela)) 0x2000) =
    false ∧
  symbol (Relocation_Elf64_Rela (Symbol:=Sample.Sym) Sample.example_rela) =
    throw (not_found "No symbol associated with this relocation") ∧
  has_symbol (bind_symbol Sample.example_entity Sample.main_symbol) = true ∧
  symbol (bind_symbol Sample.example_entity Sample.main_symbol) =
    Ok Sample.main_symbol ∧
  has_symbol (operator_assign Sample.built_rel
    (Relocation_copy (bind_symbol Sample.example_entity Sample.main_symbol))) =
    false.
Proof.
  pose proof (symbol_binding (Symbol:=Sample.Sym))
    as (_ & Hfree & Hbind & Hunbound & Hread & Hbound).
  split; [|split; [|split; [|split]]].
  - apply Hfree. apply bf_set_address, bf_decode.
  - apply Hunbound. reflexivity.
  - apply (Hread _ Sample.main_symbol). apply Hbound. reflexivity.
  - apply Hbound. reflexivity.
  - apply Hfree. apply bf_assign, bf_copy.
Defined.

Lemma equality_is_hash_equality_witness :
  Hash_hash Sample.example_entity =
    Hash_hash (set_architecture Sample.built_rel EM_X86_64) ∧
  operator_eq Sample.example_entity
    (set_architecture Sample.built_rel EM_X86_64) = Ok true.
Proof.
  refine (proj2 (proj2 (proj2 (proj2 (proj2
    (equality_is_hash_equality Sample.example_entity
       (set_architecture Sample.built_rel EM_X86_64)))))) _ _ _ _ _);
    reflexivity.
Defined.

(** C5, as first stated, fails: two entities built from the same address,
    type and addend, one with the has-addend flag and one without, are
    equal, under the sample hasher and under every other one. *)
Lemma flag_change_keeps_equality :
  is_rela Sample.built_rela ≠ is_rela Sample.built_rel ∧
  address Sample.built_rela = address Sample.built_rel ∧
  type Sample.built_rela = type Sample.built_rel ∧
  addend Sample.built_rela = addend Sample.built_rel ∧
  architecture Sample.built_rela = architecture Sample.built_rel ∧
  symbol_ Sample.built_rela = symbol_ Sample.built_rel ∧
  operator_eq Sample.built_rela Sample.built_rel = Ok true ∧
  operator_ne Sample.built_rela Sample.built_rel = Ok false ∧
  (∀ (V : Type) (hasher : Hash Sample.Sym V),
     @operator_eq _ _ hasher Sample.built_rela Sample.built_rel = Ok true).
Proof.
  split; [discriminate|].
  repeat (split; [reflexivity|]).
  intros V hasher. by apply operator_eq_true, Hash_hash_congruence.
Qed.

Lemma equality_under_field_changes_witness :
  (operator_eq Sample.example_entity
     (set_architecture Sample.built_rela EM_X86_64) = Ok true ∧
   operator_ne Sample.example_entity
     (set_architecture Sample.built_rela EM_X86_64) = Ok false) ∧
  (operator_eq Sample.built_rela Sample.built_rel = Ok true ∧
   operator_ne Sample.built_rela Sample.built_rel = Ok false) ∧
  (operator_eq Sample.example_entity
     (set_address Sample.example_entity 0x2000) = Ok false ∧
   operator_ne Sample.example_entity
     (set_address Sample.example_entity 0x2000) = Ok true).
Proof.
  split; [|split].
  - refine (proj1 (equality_under_field_changes Sample.example_entity
      (set_architecture Sample.built_rela EM_X86_64)) _ _ _ _ _ _);
      reflexivity.
  - refine (proj1 (proj2 (equality_under_field_changes
      Sample.built_rela Sample.built_rel)) _ _ _ _ _ _);
      reflexivity || discriminate.
  - refine (proj2 (proj2 (equality_under_field_changes Sample.example_entity
      (set_address Sample.example_entity 0x2000))) _ _).
    + apply changed_address. discriminate.
    + intros _ Hcollide. vm_compute in Hcollide. discriminate Hcollide.
Defined.

Lemma print_never_fails_witness :
  (∃ os', operator_shl Sample.cout
            (bind_symbol Sample.example_entity Sample.main_symbol) = Ok os' ∧
          os_buffer os' = "1000      RELATIVE  main()    "%string) ∧
  (∃ os', operator_shl Sample.cout
            (bind_symbol (Relocation_Elf64_Rela Sample.example_rela)
               Sample.raw_symbol) = Ok os' ∧
          os_buffer os' = "1000      2         memcpy    "%string) ∧
  (∃ os', operator_shl Sample.cout
            (Relocation_Elf64_Rela (Symbol:=Sample.Sym) Sample.example_rela) =
            Ok os' ∧
          os_buffer os' = "1000      2                   "%string).
Proof.
  split; [|split].
  - destruct (print_never_fails Sample.cout
      (bind_symbol Sample.example_entity Sample.main_symbol))
      as (tf & sf & os' & Hrun & Hbuf & _ & Htype & _ & Hdem & _).
    exists os'. split; [exact Hrun|].
    rewrite Hbuf, (Htype "RELATIVE"%string eq_refl),
      (Hdem Sample.main_symbol "main()"%string eq_refl eq_refl).
    reflexivity.
  - destruct (print_never_fails Sample.cout
      (bind_symbol (Relocation_Elf64_Rela Sample.example_rela) Sample.raw_symbol))
      as (tf & sf & os' & Hrun & Hbuf & Hcode & _ & _ & _ & Hraw).
    exists os'. split; [exact Hrun|].
    rewrite Hbuf, Hcode,
      (Hraw Sample.raw_symbol (not_supported "Can't demangle name") eq_refl eq_refl).
    + reflexivity.
    + intros Hin. refute_elem Hin.
  - destruct (print_never_fails Sample.cout
      (Relocation_Elf64_Rela (Symbol:=Sample.Sym) Sample.example_rela))
      as (tf & sf & os' & Hrun & Hbuf & Hcode & _ & Hempty & _).
    exists os'. split; [exact Hrun|].
    rewrite Hbuf, Hcode, Hempty.
    + reflexivity.
    + reflexivity.
    + intros Hin. refute_elem Hin.
Defined.

(** The example of the specification: the 64-bit explicit-addend record
    with offset 0x1000, info 0x0000000100000002 and addend -8, under an
    architecture whose table maps type 2 to size 8 and names it RELATIVE. *)
Example specification_example :
  address Sample.example_entity = 0x1000 ∧
  type Sample.example_entity = 2 ∧
  addend Sample.example_entity = -8 ∧
  is_rela Sample.example_entity = true ∧
  size Sample.example_entity = Ok 8 ∧
  (∃ os', operator_shl Sample.cout Sample.example_entity = Ok os' ∧
          os_buffer os' = "1000      RELATIVE            "%string).
Proof. repeat split. by eexists. Qed.

(** ** The further properties on the sample environment *)

Lemma assignment_takes_parameter_witness :
  operator_assign Sample.example_entity
    (Relocation_copy Sample.example_entity) = Sample.example_entity ∧
  operator_assign (bind_symbol Sample.example_entity Sample.main_symbol)
    (Relocation_copy (bind_symbol Sample.example_entity Sample.main_symbol)) ≠
    bind_symbol Sample.example_entity Sample.main_symbol.
Proof.
  split.
  - refine (proj1 (proj2 (proj2 (proj2 (proj2 (proj2
      (assignment_takes_parameter Sample.example_entity
         Sample.example_entity Sample.example_entity)))))) _).
    reflexivity.
  - refine (proj2 (proj2 (proj2 (proj2 (proj2 (proj2
      (assignment_takes_parameter
         (bind_symbol Sample.example_entity Sample.main_symbol)
         Sample.example_entity Sample.example_entity)))))) _).
    reflexivity.
Defined.

Lemma decode_in_range_witness :
  Relocation_wf (decode (Symbol:=Sample.Sym) (Raw_Elf64_Rela Sample.example_rela)).
Proof.
  refine (proj2 (proj2 (decode_in_range (Raw_Elf64_Rela Sample.example_rela))) _).
  unfold raw_wf, Elf64_Rela.wf, is_uint64, is_int64. cbn. lia.
Defined.

Lemma decode_kernel_witness :
  decode (Symbol:=Sample.Sym) (Raw_Elf64_Rela Sample.example_rela) =
  decode (Raw_Elf32_Rela
    {| Elf32_Rela.r_offset := 0x1000; Elf32_Rela.r_info := 0x102;
       Elf32_Rela.r_addend := -8 |}) ∧
  raw_type (Raw_Elf64_Rela Sample.example_rela) =
  raw_type (Raw_Elf64_Rela
    {| Elf64_Rela.r_offset := 0x1000; Elf64_Rela.r_info := 2;
       Elf64_Rela.r_addend := -8 |}).
Proof.
  split.
  - apply (proj2 (decode_kernel (Symbol:=Sample.Sym) _ _)).
    repeat split; reflexivity.
  - refine (proj1 (proj2 (proj1 (decode_kernel (Symbol:=Sample.Sym)
      (Raw_Elf64_Rela Sample.example_rela)
      (Raw_Elf64_Rela
         {| Elf64_Rela.r_offset := 0x1000; Elf64_Rela.r_info := 2;
            Elf64_Rela.r_addend := -8 |})) _))).
    reflexivity.
Defined.

Lemma size_frame_witness :
  size Sample.example_entity =
  size (set_architecture Sample.built_rel EM_X86_64).
Proof.
  refine (proj1 (size_frame Sample.example_entity Sample.example_entity 0)
    (set_architecture Sample.built_rel EM_X86_64) _ _); reflexivity.
Defined.


Lemma copy_equality_witness :
  (Relocation_copy Sample.example_entity = Sample.example_entity ∧
   operator_eq (Relocation_copy Sample.example_entity)
     Sample.example_entity = Ok true) ∧
  (operator_eq
     (Relocation_copy (bind_symbol Sample.example_entity Sample.main_symbol))
     (bind_symbol Sample.example_entity Sample.main_symbol) = Ok false ∧
   operator_ne
     (Relocation_copy (bind_symbol Sample.example_entity Sample.main_symbol))
     (bind_symbol Sample.example_entity Sample.main_symbol) = Ok true).
Proof.
  split.
  - refine (proj1 (copy_equality Sample.example_entity) _). reflexivity.
  - refine (proj2 (copy_equality
      (bind_symbol Sample.example_entity Sample.main_symbol)) _ _).
    + reflexivity.
    + intros _ Hcollide. vm_compute in Hcollide. discriminate Hcollide.
Defined.

Lemma print_ignores_addend_and_flag_witness :
  operator_shl Sample.cout Sample.built_rela =
  operator_shl Sample.cout (set_addend Sample.built_rel 5).
Proof.
  apply (print_ignores_addend_and_flag Sample.cout
    Sample.built_rela (set_addend Sample.built_rel 5)); reflexivity.
Defined.

Lemma print_twice_witness :
  ∃ os1 os2,
    operator_shl Sample.cout Sample.example_entity = Ok os1 ∧
    operator_shl os1 Sample.built_rel = Ok os2 ∧
    os_buffer os2 =
      "1000      RELATIVE            1000      2                   "%string.
Proof.
  pose proof (operator_shl_run Sample.cout Sample.example_entity) as Hfirst.
  match type of Hfirst with
  | _ = Ok ?os1 =>
      pose proof (operator_shl_run os1 Sample.built_rel) as Hsecond
  end.
  eexists. eexists.
  split; [exact Hfirst|]. split; [exact Hsecond|].
  rewrite (print_twice _ _ _ _ _ Hfirst Hsecond). reflexivity.
Defined.

Lemma accept_shows_fields_witness :
  @accept _ _ (Recorder Sample.Sym) Sample.built_rela [] =
  @accept _ _ (Recorder Sample.Sym) Sample.built_rel [].
Proof.
  refine (proj2 (proj2 (proj2 (@accept_shows_fields _ _ (Recorder Sample.Sym)
    Sample.built_rela []))) Sample.built_rel _ _ _ _ _); reflexivity.
Defined.
